(** * RPiPlay / esp/main/main.ino: serial-to-BLE-mouse sketch

    A shallow embedding of the Arduino sketch [src/esp/main/main.ino] and
    the properties of its command dispatch.

    The sketch talks to three outside parties: the serial port, the BLE
    HID transport ([bleMouse]) and the clock ([delay]).  Every call it
    makes to one of them is recorded, in program order, as an [event];
    the only state the sketch can observe is gathered in [world]. *)

From Stdlib Require Import ZArith List Ascii String Bool Lia.
Import ListNotations.

Local Open Scope Z_scope.

(** ** The outside world *)

(** The three button constants of BleMouse.h used by the sketch. *)
Inductive button : Type :=
| MOUSE_LEFT
| MOUSE_RIGHT
| MOUSE_MIDDLE.

(** One call made by the sketch, with the value it returned where the
    call is a query. *)
Inductive event : Type :=
| EvSerialBegin (baud : Z)          (* Serial.begin(baud)            *)
| EvBleBegin                        (* bleMouse.begin()              *)
| EvDelay (ms : Z)                  (* delay(ms)                     *)
| EvIsConnected (b : bool)          (* bleMouse.isConnected() = b    *)
| EvAvailable (n : Z)               (* Serial.available() = n        *)
| EvRead (r : Z)                    (* Serial.read() = r             *)
| EvMove (dx dy : Z)                (* bleMouse.move(dx, dy)         *)
| EvClick (b : button)              (* bleMouse.click(b)             *)
| EvPrint (s : string)              (* Serial.print(s)               *)
| EvPrintln (s : string).           (* Serial.println(s)             *)

(** What the sketch can observe: the transport's connection flag, which
    it only reads, and the bytes waiting in the serial receive queue,
    oldest first. *)
Record world : Type := mkWorld {
  ble_connected : bool;
  serial_rx : list ascii
}.

(** ** A state-and-trace monad for Arduino code *)

Definition M (A : Type) : Type := world -> A * world * list event.

Definition ret {A : Type} (a : A) : M A :=
  fun w => (a, w, []).

Definition bind {A B : Type} (m : M A) (k : A -> M B) : M B :=
  fun w =>
    let '(a, w1, t1) := m w in
    let '(b, w2, t2) := k a w1 in
    (b, w2, t1 ++ t2).

Declare Scope sketch_scope.
Delimit Scope sketch_scope with sketch.
Notation "x <- m ;; k" := (bind m (fun x => k))
  (at level 61, m at next level, right associativity) : sketch_scope.
Notation "m ;; k" := (bind m (fun _ => k))
  (at level 61, right associativity) : sketch_scope.
Local Open Scope sketch_scope.

Definition emit (e : event) : M unit :=
  fun w => (tt, w, [e]).

(** Projections of a finished computation. *)
Definition result_of {A : Type} (r : A * world * list event) : A := fst (fst r).
Definition world_of {A : Type} (r : A * world * list event) : world := snd (fst r).
Definition events_of {A : Type} (r : A * world * list event) : list event := snd r.

(** ** The library calls used by the sketch *)

Definition delay (ms : Z) : M unit := emit (EvDelay ms).

Module Serial.

Definition begin (baud : Z) : M unit := emit (EvSerialBegin baud).

(** Number of bytes waiting in the receive queue, as an int; the call
    returns at once and leaves the queue alone. *)
Definition available : M Z :=
  fun w =>
    let n := Z.of_nat (List.length (serial_rx w)) in
    (n, w, [EvAvailable n]).

(** Removes and returns the oldest waiting byte, or returns -1 when the
    queue is empty; never blocks. *)
Definition read : M Z :=
  fun w =>
    match serial_rx w with
    | [] => (-1, w, [EvRead (-1)])
    | c :: rest =>
        let r := Z.of_N (N_of_ascii c) in
        (r, mkWorld (ble_connected w) rest, [EvRead r])
    end.

Definition print (s : string) : M unit := emit (EvPrint s).

Definition println (s : string) : M unit := emit (EvPrintln s).

(** The [println(char)] overload: the character itself, then the line end. *)
Definition println_char (c : ascii) : M unit :=
  emit (EvPrintln (String c EmptyString)).

End Serial.

Module bleMouse.

Definition begin : M unit := emit EvBleBegin.

Definition isConnected : M bool :=
  fun w => (ble_connected w, w, [EvIsConnected (ble_connected w)]).

Definition move (dx dy : Z) : M unit := emit (EvMove dx dy).

Definition click (b : button) : M unit := emit (EvClick b).

End bleMouse.

(** ** C constructs *)

(** [char input = <int>;]: the int is reduced to its low eight bits.
    Whether [char] is signed plays no part: the seven [case] labels are
    all below 128, and [println] sends the byte as it is. *)
Definition char_of_int (r : Z) : ascii := ascii_of_N (Z.to_N (r mod 256)).

(** The truth value of an int used as a condition. *)
Definition int_true (n : Z) : bool := negb (n =? 0).

(** [for (int i = lo; i < hi; ++i) body]: the body runs once for each of
    the [hi - lo] values of [i], none when [hi <= lo]. *)
Fixpoint for_count (k : nat) (i : Z) (body : Z -> M unit) : M unit :=
  match k with
  | O => ret tt
  | S k' => body i ;; for_count k' (i + 1) body
  end.

Definition for_range (lo hi : Z) (body : Z -> M unit) : M unit :=
  for_count (Z.to_nat (hi - lo)) lo body.

(** ** The sketch *)

Definition banner : string := "BLE Mouse started. Waiting for connection...".

(** [setup()], lines 5-9. *)
Definition setup : M unit :=
  Serial.begin 115200 ;;
  bleMouse.begin ;;
  Serial.println banner.

(** The [switch (input)] statement of [loop()], lines 17-69. *)
Definition dispatch (input : ascii) : M unit :=
  match input with
  | "w"%char =>
      for_range 0 2 (fun _ => bleMouse.move 0 (-127) ;; delay 100) ;;
      Serial.println "↑"
  | "s"%char =>
      for_range 0 2 (fun _ => bleMouse.move 0 127 ;; delay 100) ;;
      Serial.println "↓"
  | "a"%char =>
      for_range 0 2 (fun _ => bleMouse.move (-50) 0 ;; delay 50) ;;
      Serial.println "←"
  | "d"%char =>
      for_range 0 2 (fun _ => bleMouse.move 50 0 ;; delay 40) ;;
      Serial.println "→"
  | "c"%char =>
      bleMouse.click MOUSE_LEFT ;;
      Serial.println "Click"
  | "r"%char =>
      bleMouse.click MOUSE_RIGHT ;;
      Serial.println "Right click"
  | "m"%char =>
      bleMouse.click MOUSE_MIDDLE ;;
      Serial.println "Middle click"
  | _ =>
      Serial.print "Unknown input: " ;;
      Serial.println_char input
  end.

(** [loop()], lines 11-75. *)
Definition loop : M unit :=
  delay 10 ;;
  connected <- bleMouse.isConnected ;;
  if connected then
    n <- Serial.available ;;
    if int_true n then
      r <- Serial.read ;;
      let input := char_of_int r in
      dispatch input
    else ret tt
  else
    delay 500.

(** ** The runtime around the sketch

    The Arduino core calls [setup()] once and then [loop()] again and
    again.  Between two calls the environment may change the connection
    flag and deliver more bytes; a schedule lists, for each call of
    [loop()], the flag it will see and the bytes that arrived since the
    previous call. *)

Definition power_on : world := mkWorld false [].

Fixpoint run (sched : list (bool * list ascii)) (w : world)
  : world * list event :=
  match sched with
  | [] => (w, [])
  | (conn, bytes) :: sched' =>
      let '(_, w1, t1) := loop (mkWorld conn (serial_rx w ++ bytes)) in
      let '(w2, t2) := run sched' w1 in
      (w2, t1 ++ t2)
  end.

Definition sketch_trace (sched : list (bool * list ascii)) : list event :=
  let '(_, w0, t0) := setup power_on in
  t0 ++ snd (run sched w0).

(** ** Reading a trace *)

Definition is_hid_report (e : event) : bool :=
  match e with
  | EvMove _ _ | EvClick _ => true
  | _ => false
  end.

Definition is_serial_input (e : event) : bool :=
  match e with
  | EvAvailable _ | EvRead _ => true
  | _ => false
  end.

Definition is_serial_output (e : event) : bool :=
  match e with
  | EvPrint _ | EvPrintln _ => true
  | _ => false
  end.

(** What an observer of the device sees: sleeps, HID reports and text.
    Queries, which only return a value to the sketch, are left out. *)
Definition is_action (e : event) : bool :=
  match e with
  | EvIsConnected _ | EvAvailable _ | EvRead _ => false
  | _ => true
  end.

Definition hid_reports (t : list event) : list event := filter is_hid_report t.
Definition serial_inputs (t : list event) : list event := filter is_serial_input t.
Definition serial_outputs (t : list event) : list event := filter is_serial_output t.
Definition actions (t : list event) : list event := filter is_action t.

(** The values returned by the calls of [Serial.read()]. *)
Fixpoint reads (t : list event) : list Z :=
  match t with
  | [] => []
  | EvRead r :: t' => r :: reads t'
  | _ :: t' => reads t'
  end.

(** Total time spent in [delay], in milliseconds. *)
Fixpoint total_delay (t : list event) : Z :=
  match t with
  | [] => 0
  | EvDelay ms :: t' => ms + total_delay t'
  | _ :: t' => total_delay t'
  end.

(** The diagnostic lines: a line is the text printed since the previous
    line end, closed by one [println].  [cur] is the text of the line
    still open; text never closed by a [println] is not a line. *)
Fixpoint lines_from (cur : string) (t : list event) : list string :=
  match t with
  | [] => []
  | EvPrint s :: t' => lines_from (cur ++ s) t'
  | EvPrintln s :: t' => (cur ++ s)%string :: lines_from EmptyString t'
  | _ :: t' => lines_from cur t'
  end.

Definition serial_lines (t : list event) : list string :=
  lines_from EmptyString t.

(** The bytes put on the wire: [println] ends the line with CR LF. *)
Definition crlf : string :=
  String (ascii_of_nat 13) (String (ascii_of_nat 10) EmptyString).

Fixpoint tx_bytes (t : list event) : string :=
  match t with
  | [] => EmptyString
  | EvPrint s :: t' => s ++ tx_bytes t'
  | EvPrintln s :: t' => s ++ crlf ++ tx_bytes t'
  | _ :: t' => tx_bytes t'
  end.

(** ** The documented behaviour

    The dispatch table of the specification (section 4.2), with the
    diagnostic line of each command.  It is written from the
    specification, not from the sketch, and is what the sketch is
    compared against below. *)

Inductive action : Type :=
| Burst (dx dy : Z) (pause : Z) (line : string)
    (* two relative moves (dx, dy) with a pause of [pause] ms *)
| Press (b : button) (line : string).
    (* a single click of button [b] *)

Definition documented_action (c : ascii) : option action :=
  if (c =? "w")%char then Some (Burst 0 (-127) 100 "↑")
  else if (c =? "s")%char then Some (Burst 0 127 100 "↓")
  else if (c =? "a")%char then Some (Burst (-50) 0 50 "←")
  else if (c =? "d")%char then Some (Burst 50 0 40 "→")
  else if (c =? "c")%char then Some (Press MOUSE_LEFT "Click")
  else if (c =? "r")%char then Some (Press MOUSE_RIGHT "Right click")
  else if (c =? "m")%char then Some (Press MOUSE_MIDDLE "Middle click")
  else None.

Definition recognized : list ascii :=
  ["w"; "s"; "a"; "d"; "c"; "r"; "m"]%char.

Definition documented_reports (a : action) : list event :=
  match a with
  | Burst dx dy _ _ => [EvMove dx dy; EvMove dx dy]
  | Press b _ => [EvClick b]
  end.

Definition documented_line (a : action) : string :=
  match a with
  | Burst _ _ _ line => line
  | Press _ line => line
  end.

(** The four relative moves of the table. *)
Definition documented_move (dx dy : Z) : Prop :=
  (dx, dy) = (0, -127) \/ (dx, dy) = (0, 127) \/
  (dx, dy) = (-50, 0) \/ (dx, dy) = (50, 0).

Definition move_in_range (e : event) : Prop :=
  match e with
  | EvMove dx dy =>
      documented_move dx dy /\ -127 <= dx <= 127 /\ -127 <= dy <= 127
  | _ => True
  end.

(** The events of one [switch] execution; [dispatch] neither reads nor
    changes the world (lemma [dispatch_world]). *)
Definition dispatch_events (c : ascii) : list event :=
  events_of (dispatch c power_on).

(** ** Reading a whole run *)

(** The int that [Serial.read()] returns for a byte. *)
Definition code (c : ascii) : Z := Z.of_N (N_of_ascii c).

(** All the bytes a schedule delivers, in order of arrival. *)
Definition arrived (sched : list (bool * list ascii)) : list ascii :=
  List.concat (map snd sched).

(** The number of [loop()] calls of a schedule that find the peer
    connected, and the number that do not. *)
Definition connected_slots (sched : list (bool * list ascii)) : nat :=
  List.length (filter (fun s => fst s) sched).

Definition disconnected_slots (sched : list (bool * list ascii)) : nat :=
  List.length (filter (fun s => negb (fst s)) sched).

Definition is_init (e : event) : bool :=
  match e with
  | EvSerialBegin _ | EvBleBegin => true
  | _ => false
  end.

Definition is_connection_query (e : event) : bool :=
  match e with
  | EvIsConnected _ => true
  | _ => false
  end.

Definition is_available_query (e : event) : bool :=
  match e with
  | EvAvailable _ => true
  | _ => false
  end.

(** [reports_guarded conn t] walks the trace with [conn], the latest
    answer of [isConnected()], and fails on a HID report sent while that
    answer is [false]. *)
Fixpoint reports_guarded (conn : bool) (t : list event) : bool :=
  match t with
  | [] => true
  | EvIsConnected b :: t' => reports_guarded b t'
  | EvMove _ _ :: t' => conn && reports_guarded conn t'
  | EvClick _ :: t' => conn && reports_guarded conn t'
  | _ :: t' => reports_guarded conn t'
  end.



Definition reports_for (c : ascii) : list event :=
  match documented_action c with
  | Some a => documented_reports a
  | None => []
  end.

(** The sum of the deltas of all move reports, per axis. *)
Fixpoint net_dx (t : list event) : Z :=
  match t with
  | [] => 0
  | EvMove dx _ :: t' => dx + net_dx t'
  | _ :: t' => net_dx t'
  end.

Fixpoint net_dy (t : list event) : Z :=
  match t with
  | [] => 0
  | EvMove _ dy :: t' => dy + net_dy t'
  | _ :: t' => net_dy t'
  end.

(** How many calls of [Serial.read()] returned [r]. *)
Fixpoint count_read (r : Z) (t : list event) : Z :=
  match t with
  | [] => 0
  | EvRead r' :: t' => (if r' =? r then 1 else 0) + count_read r t'
  | _ :: t' => count_read r t'
  end.

(** * Properties *)

(** ** Basic facts *)

Lemma char_of_int_code (c : ascii) :
  char_of_int (Z.of_N (N_of_ascii c)) = c.
Proof.
  unfold char_of_int.
  assert (Hb : (N_of_ascii c < 256)%N) by apply N_ascii_bounded.
  rewrite Z.mod_small by lia.
  rewrite N2Z.id. apply ascii_N_embedding.
Qed.

Lemma int_true_succ (n : nat) : int_true (Z.of_nat (S n)) = true.
Proof.
  unfold int_true. destruct (Z.eqb_spec (Z.of_nat (S n)) 0); [lia | reflexivity].
Qed.

Ltac each_ascii c :=
  destruct c as [[] [] [] [] [] [] [] []].

Lemma dispatch_world (c : ascii) (w : world) :
  dispatch c w = (tt, w, dispatch_events c).
Proof. each_ascii c; reflexivity. Qed.

Lemma loop_disconnected (w : world) :
  ble_connected w = false ->
  loop w = (tt, w, [EvDelay 10; EvIsConnected false; EvDelay 500]).
Proof.
  intros H. destruct w as [conn rx]. simpl in H. subst conn. reflexivity.
Qed.

Lemma loop_idle (w : world) :
  ble_connected w = true -> serial_rx w = [] ->
  loop w = (tt, w, [EvDelay 10; EvIsConnected true; EvAvailable 0]).
Proof.
  intros Hc Hrx. destruct w as [conn rx]. simpl in Hc, Hrx. subst. reflexivity.
Qed.

Lemma loop_dispatch (w : world) (c : ascii) (rest : list ascii) :
  ble_connected w = true -> serial_rx w = c :: rest ->
  loop w =
  (tt, mkWorld true rest,
   [EvDelay 10; EvIsConnected true;
    EvAvailable (Z.of_nat (S (List.length rest)));
    EvRead (Z.of_N (N_of_ascii c))] ++ dispatch_events c).
Proof.
  intros Hc Hrx. destruct w as [conn rx]. simpl in Hc, Hrx. subst.
  unfold loop, bind, delay, emit, bleMouse.isConnected, Serial.available,
    Serial.read.
  cbn [ble_connected serial_rx List.length].
  rewrite int_true_succ.
  cbn [ble_connected serial_rx].
  rewrite char_of_int_code, dispatch_world.
  reflexivity.
Qed.

Lemma events_of_bind {A B : Type} (m : M A) (k : A -> M B) (w : world) :
  events_of (bind m k w) =
  events_of (m w) ++ events_of (k (result_of (m w)) (world_of (m w))).
Proof.
  unfold bind, events_of, result_of, world_of.
  destruct (m w) as [[a w1] t1]. cbn [fst snd].
  destruct (k a w1) as [[b w2] t2]. reflexivity.
Qed.

Lemma world_of_bind {A B : Type} (m : M A) (k : A -> M B) (w : world) :
  world_of (bind m k w) = world_of (k (result_of (m w)) (world_of (m w))).
Proof.
  unfold bind, events_of, result_of, world_of.
  destruct (m w) as [[a w1] t1]. cbn [fst snd].
  destruct (k a w1) as [[b w2] t2]. reflexivity.
Qed.

Lemma documented_recognized (c : ascii) (a : action) :
  documented_action c = Some a -> In c recognized.
Proof.
  unfold documented_action, recognized.
  repeat match goal with
         | |- context [Ascii.eqb c ?k] =>
             destruct (Ascii.eqb_spec c k);
             [ subst c; intros _; simpl; tauto | ]
         end.
  discriminate.
Qed.

(** The [switch] never touches the serial input. *)
Lemma dispatch_no_read (c : ascii) :
  serial_inputs (dispatch_events c) = [] /\ reads (dispatch_events c) = [].
Proof. each_ascii c; split; reflexivity. Qed.

Lemma total_delay_app (t u : list event) :
  total_delay (t ++ u) = total_delay t + total_delay u.
Proof.
  induction t as [| e t IH]; [reflexivity |].
  destruct e; cbn [total_delay app]; rewrite ?IH; lia.
Qed.

Lemma dispatch_delay_bound (c : ascii) :
  total_delay (dispatch_events c) <= 200.
Proof. each_ascii c; vm_compute; discriminate. Qed.

Lemma loop_connected_delay (w : world) :
  ble_connected w = true -> total_delay (events_of (loop w)) <= 210.
Proof.
  intros Hc. destruct (serial_rx w) as [| c rest] eqn:Hrx.
  - rewrite (loop_idle w Hc Hrx). vm_compute. discriminate.
  - rewrite (loop_dispatch w c rest Hc Hrx).
    unfold events_of. cbn [snd]. rewrite total_delay_app.
    pose proof (dispatch_delay_bound c).
    cbn [total_delay]. lia.
Qed.

Lemma dispatch_moves_in_range (c : ascii) :
  Forall move_in_range (dispatch_events c).
Proof.
  each_ascii c;
    repeat (apply Forall_cons;
            [ first [ exact I
                    | unfold move_in_range, documented_move; intuition lia ]
            | ]);
    apply Forall_nil.
Qed.

Lemma loop_moves_in_range (w : world) :
  Forall move_in_range (events_of (loop w)).
Proof.
  destruct (ble_connected w) eqn:Hc.
  - destruct (serial_rx w) as [| c rest] eqn:Hrx.
    + rewrite (loop_idle w Hc Hrx). repeat constructor.
    + rewrite (loop_dispatch w c rest Hc Hrx).
      unfold events_of. cbn [snd]. apply Forall_app. split.
      * repeat constructor.
      * apply dispatch_moves_in_range.
  - rewrite (loop_disconnected w Hc). repeat constructor.
Qed.

Lemma run_moves_in_range (sched : list (bool * list ascii)) :
  forall w, Forall move_in_range (snd (run sched w)).
Proof.
  induction sched as [| [conn bytes] sched' IH]; intros w.
  - constructor.
  - cbn [run].
    pose proof (loop_moves_in_range (mkWorld conn (serial_rx w ++ bytes))) as Hl.
    destruct (loop (mkWorld conn (serial_rx w ++ bytes))) as [[u w1] t1].
    specialize (IH w1). destruct (run sched' w1) as [w2 t2].
    cbn [snd events_of] in *. apply Forall_app. split; assumption.
Qed.

(** ** Sample runs *)

Example loop_w :
  loop (mkWorld true ["w"%char; "x"%char]) =
  (tt, mkWorld true ["x"%char],
   [EvDelay 10; EvIsConnected true; EvAvailable 2; EvRead 119;
    EvMove 0 (-127); EvDelay 100; EvMove 0 (-127); EvDelay 100;
    EvPrintln "↑"]).
Proof. reflexivity. Qed.

Example loop_click_then_newline :
  events_of ((loop ;; loop) (mkWorld true ["c"%char; ascii_of_nat 10])) =
  [EvDelay 10; EvIsConnected true; EvAvailable 2; EvRead 99;
   EvClick MOUSE_LEFT; EvPrintln "Click";
   EvDelay 10; EvIsConnected true; EvAvailable 1; EvRead 10;
   EvPrint "Unknown input: "; EvPrintln (String (ascii_of_nat 10) EmptyString)].
Proof. reflexivity. Qed.

(** The arrows are the three-byte UTF-8 sequences of the source file. *)
Example arrow_bytes :
  map (fun s => map nat_of_ascii (list_ascii_of_string s))
      ["↑"; "↓"; "←"; "→"]%string =
  [[226; 134; 145]; [226; 134; 147]; [226; 134; 144]; [226; 134; 146]]%nat.
Proof. reflexivity. Qed.

(** A run of three iterations: disconnected with a byte already waiting,
    then connected, then connected with nothing left to read. *)
Example sketch_trace_sample :
  sketch_trace [(false, ["d"%char]); (true, []); (true, [])] =
  [EvSerialBegin 115200; EvBleBegin; EvPrintln banner;
   EvDelay 10; EvIsConnected false; EvDelay 500;
   EvDelay 10; EvIsConnected true; EvAvailable 1; EvRead 100;
   EvMove 50 0; EvDelay 40; EvMove 50 0; EvDelay 40; EvPrintln "→";
   EvDelay 10; EvIsConnected true; EvAvailable 0].
Proof. reflexivity. Qed.

(** ** The dispatch table *)

(** C1: for each of the seven recognized characters, one iteration of
    [loop()] with the peer connected and that character next in the
    serial queue sends exactly the HID reports of the documented action
    (two moves of the documented deltas, or one click of the documented
    button) and prints exactly the documented diagnostic line. *)
Theorem recognized_command_reports (c : ascii) (w : world) (rest : list ascii) :
  In c recognized ->
  ble_connected w = true ->
  serial_rx w = c :: rest ->
  exists a : action,
    documented_action c = Some a /\
    hid_reports (events_of (loop w)) = documented_reports a /\
    serial_lines (events_of (loop w)) = [documented_line a] /\
    tx_bytes (events_of (loop w)) = (documented_line a ++ crlf)%string.
Proof.
  intros Hin Hc Hrx. rewrite (loop_dispatch w c rest Hc Hrx).
  simpl in Hin.
  repeat (destruct Hin as [<- | Hin];
          [eexists; split; [reflexivity | repeat split; reflexivity] | ]).
  contradiction.
Qed.

Lemma recognized_command_reports_witness :
  In "s"%char recognized /\
  exists a : action,
    documented_action "s" = Some a /\
    hid_reports (events_of (loop (mkWorld true ["s"%char]))) =
      documented_reports a /\
    serial_lines (events_of (loop (mkWorld true ["s"%char]))) =
      [documented_line a] /\
    tx_bytes (events_of (loop (mkWorld true ["s"%char]))) =
      (documented_line a ++ crlf)%string.
Proof.
  split.
  - simpl. tauto.
  - apply (recognized_command_reports "s" (mkWorld true ["s"%char]) []).
    + simpl. tauto.
    + reflexivity.
    + reflexivity.
Defined.

(** C3: a character outside the recognized set, dispatched while
    connected, sends no HID report at all and prints exactly one
    diagnostic line, "Unknown input: " followed by that character. *)
Theorem unknown_command_reports_nothing (c : ascii) (w : world) (rest : list ascii) :
  ~ In c recognized ->
  ble_connected w = true ->
  serial_rx w = c :: rest ->
  hid_reports (events_of (loop w)) = [] /\
  serial_outputs (events_of (loop w)) =
    [EvPrint "Unknown input: "; EvPrintln (String c EmptyString)] /\
  serial_lines (events_of (loop w)) =
    [("Unknown input: " ++ String c EmptyString)%string] /\
  tx_bytes (events_of (loop w)) =
    ("Unknown input: " ++ String c crlf)%string.
Proof.
  intros Hout Hc Hrx. rewrite (loop_dispatch w c rest Hc Hrx).
  each_ascii c;
    first [ repeat split; reflexivity
          | exfalso; apply Hout; simpl; tauto ].
Qed.

Lemma unknown_command_reports_nothing_witness :
  ~ In "z"%char recognized /\
  hid_reports (events_of (loop (mkWorld true ["z"%char]))) = [] /\
  serial_outputs (events_of (loop (mkWorld true ["z"%char]))) =
    [EvPrint "Unknown input: "; EvPrintln "z"] /\
  serial_lines (events_of (loop (mkWorld true ["z"%char]))) =
    ["Unknown input: z"%string] /\
  tx_bytes (events_of (loop (mkWorld true ["z"%char]))) =
    ("Unknown input: z" ++ crlf)%string.
Proof.
  assert (Hz : ~ In "z"%char recognized).
  { simpl. intros H.
    repeat (destruct H as [H | H]; [discriminate H | ]). exact H. }
  split.
  - exact Hz.
  - apply (unknown_command_reports_nothing "z" (mkWorld true ["z"%char]) [] Hz);
      reflexivity.
Defined.

(** C4: 'w' dispatched while connected gives exactly two move reports
    (0, -127) with a 100 ms pause between them, and then the diagnostic
    line with the up arrow. *)
Theorem scenario_up_burst (w : world) (rest : list ascii) :
  ble_connected w = true ->
  serial_rx w = "w"%char :: rest ->
  loop w =
  (tt, mkWorld true rest,
   [EvDelay 10; EvIsConnected true;
    EvAvailable (Z.of_nat (S (List.length rest))); EvRead 119;
    EvMove 0 (-127); EvDelay 100; EvMove 0 (-127); EvDelay 100;
    EvPrintln "↑"]) /\
  hid_reports (events_of (loop w)) = [EvMove 0 (-127); EvMove 0 (-127)] /\
  serial_lines (events_of (loop w)) = ["↑"%string].
Proof.
  intros Hc Hrx. rewrite (loop_dispatch w "w" rest Hc Hrx).
  repeat split; reflexivity.
Qed.

Lemma scenario_up_burst_witness :
  loop (mkWorld true ["w"%char]) =
  (tt, mkWorld true [],
   [EvDelay 10; EvIsConnected true; EvAvailable 1; EvRead 119;
    EvMove 0 (-127); EvDelay 100; EvMove 0 (-127); EvDelay 100;
    EvPrintln "↑"]).
Proof.
  exact (proj1 (scenario_up_burst (mkWorld true ["w"%char]) [] eq_refl eq_refl)).
Defined.

(** C5: 'd' dispatched while connected gives exactly two move reports
    (+50, 0) with a 40 ms pause between them, and then the diagnostic
    line with the right arrow. *)
Theorem scenario_right_burst (w : world) (rest : list ascii) :
  ble_connected w = true ->
  serial_rx w = "d"%char :: rest ->
  loop w =
  (tt, mkWorld true rest,
   [EvDelay 10; EvIsConnected true;
    EvAvailable (Z.of_nat (S (List.length rest))); EvRead 100;
    EvMove 50 0; EvDelay 40; EvMove 50 0; EvDelay 40;
    EvPrintln "→"]) /\
  hid_reports (events_of (loop w)) = [EvMove 50 0; EvMove 50 0] /\
  serial_lines (events_of (loop w)) = ["→"%string].
Proof.
  intros Hc Hrx. rewrite (loop_dispatch w "d" rest Hc Hrx).
  repeat split; reflexivity.
Qed.

Lemma scenario_right_burst_witness :
  loop (mkWorld true ["d"%char; "d"%char]) =
  (tt, mkWorld true ["d"%char],
   [EvDelay 10; EvIsConnected true; EvAvailable 2; EvRead 100;
    EvMove 50 0; EvDelay 40; EvMove 50 0; EvDelay 40;
    EvPrintln "→"]).
Proof.
  exact (proj1 (scenario_right_burst (mkWorld true ["d"%char; "d"%char]) ["d"%char]
                 eq_refl eq_refl)).
Defined.

(** ** The polling loop *)

(** C2: in an iteration that finds the peer disconnected, whatever is
    waiting in the serial queue, nothing is read (the queue is left as it
    was and no serial input call is made), no HID report is sent and
    nothing is printed; the iteration only sleeps, 10 ms and then 500 ms,
    which is longer than any iteration that finds the peer connected. *)
Theorem disconnected_iteration_is_silent (w : world) :
  ble_connected w = false ->
  world_of (loop w) = w /\
  events_of (loop w) = [EvDelay 10; EvIsConnected false; EvDelay 500] /\
  serial_inputs (events_of (loop w)) = [] /\
  reads (events_of (loop w)) = [] /\
  hid_reports (events_of (loop w)) = [] /\
  serial_outputs (events_of (loop w)) = [] /\
  serial_lines (events_of (loop w)) = [] /\
  total_delay (events_of (loop w)) = 510 /\
  forall w' : world,
    ble_connected w' = true ->
    total_delay (events_of (loop w')) < total_delay (events_of (loop w)).
Proof.
  intros Hd. rewrite (loop_disconnected w Hd).
  repeat (split; [reflexivity | ]).
  intros w' Hc. pose proof (loop_connected_delay w' Hc) as Hb.
  change (total_delay (events_of (tt, w, [EvDelay 10; EvIsConnected false; EvDelay 500])))
    with 510.
  lia.
Qed.

Lemma disconnected_iteration_is_silent_witness :
  world_of (loop (mkWorld false ["w"%char; "c"%char; "z"%char])) =
    mkWorld false ["w"%char; "c"%char; "z"%char] /\
  events_of (loop (mkWorld false ["w"%char; "c"%char; "z"%char])) =
    [EvDelay 10; EvIsConnected false; EvDelay 500].
Proof.
  pose proof (disconnected_iteration_is_silent
                (mkWorld false ["w"%char; "c"%char; "z"%char]) eq_refl) as H.
  split.
  - exact (proj1 H).
  - exact (proj1 (proj2 H)).
Defined.

(** C6: an iteration that finds the peer connected asks once how many
    bytes are waiting, which never blocks.  With an empty queue it stops
    there: no read, no report, no text, the world unchanged.  With a
    non-empty queue it makes exactly one read, which takes the oldest byte
    and leaves all the others in place, and that byte, as a character, is
    what the [switch] is run on. *)
Theorem connected_iteration_reads_one_byte (w : world) :
  ble_connected w = true ->
  match serial_rx w with
  | [] =>
      loop w = (tt, w, [EvDelay 10; EvIsConnected true; EvAvailable 0])
  | c :: rest =>
      world_of (loop w) = mkWorld true rest /\
      serial_inputs (events_of (loop w)) =
        [EvAvailable (Z.of_nat (List.length (serial_rx w)));
         EvRead (Z.of_N (N_of_ascii c))] /\
      reads (events_of (loop w)) = [Z.of_N (N_of_ascii c)] /\
      char_of_int (Z.of_N (N_of_ascii c)) = c /\
      events_of (loop w) =
        [EvDelay 10; EvIsConnected true;
         EvAvailable (Z.of_nat (List.length (serial_rx w)));
         EvRead (Z.of_N (N_of_ascii c))] ++
        events_of (dispatch c (mkWorld true rest))
  end.
Proof.
  intros Hc. destruct (serial_rx w) as [| c rest] eqn:Hrx.
  - exact (loop_idle w Hc Hrx).
  - rewrite (loop_dispatch w c rest Hc Hrx).
    destruct (dispatch_no_read c) as [Hin Hrd].
    unfold world_of, events_of. cbn [fst snd List.length].
    split; [reflexivity | ].
    split.
    { unfold serial_inputs. rewrite filter_app.
      fold (serial_inputs (dispatch_events c)). rewrite Hin. reflexivity. }
    split.
    { change (reads ([EvDelay 10; EvIsConnected true;
                      EvAvailable (Z.of_nat (S (List.length rest)));
                      EvRead (Z.of_N (N_of_ascii c))] ++ dispatch_events c))
        with (Z.of_N (N_of_ascii c) :: reads (dispatch_events c)).
      rewrite Hrd. reflexivity. }
    split; [apply char_of_int_code | ].
    rewrite dispatch_world. reflexivity.
Qed.

Lemma connected_iteration_reads_one_byte_witness :
  world_of (loop (mkWorld true ["c"%char; "r"%char; "m"%char])) =
    mkWorld true ["r"%char; "m"%char] /\
  reads (events_of (loop (mkWorld true ["c"%char; "r"%char; "m"%char]))) =
    [99].
Proof.
  pose proof (connected_iteration_reads_one_byte
                (mkWorld true ["c"%char; "r"%char; "m"%char]) eq_refl) as H.
  cbn [serial_rx] in H.
  split.
  - exact (proj1 H).
  - exact (proj1 (proj2 (proj2 H))).
Defined.

(** C7: two iterations in a row, both with the peer connected and the
    same character at the head of the queue, produce the same burst
    twice.  The first iteration leaves nothing behind but a queue that
    is one byte shorter; the second then performs exactly the actions of
    the first, after them, and consumes its own byte. *)
Theorem same_command_twice (w : world) (c : ascii) (rest : list ascii) :
  ble_connected w = true ->
  serial_rx w = c :: c :: rest ->
  world_of (loop w) = mkWorld true (c :: rest) /\
  actions (events_of (loop (world_of (loop w)))) =
    actions (events_of (loop w)) /\
  reads (events_of (loop (world_of (loop w)))) = reads (events_of (loop w)) /\
  events_of ((loop ;; loop) w) =
    events_of (loop w) ++ events_of (loop (world_of (loop w))) /\
  actions (events_of ((loop ;; loop) w)) =
    actions (events_of (loop w)) ++ actions (events_of (loop w)) /\
  world_of ((loop ;; loop) w) = mkWorld true rest.
Proof.
  intros Hc Hrx.
  pose proof (loop_dispatch w c (c :: rest) Hc Hrx) as E1.
  pose proof (loop_dispatch (mkWorld true (c :: rest)) c rest eq_refl eq_refl)
    as E2.
  assert (W1 : world_of (loop w) = mkWorld true (c :: rest))
    by (rewrite E1; reflexivity).
  split; [exact W1 | ].
  rewrite (events_of_bind loop (fun _ => loop) w).
  rewrite (world_of_bind loop (fun _ => loop) w).
  rewrite W1, E2, E1.
  unfold world_of, events_of. cbn [fst snd].
  unfold actions. rewrite !filter_app.
  repeat split; reflexivity.
Qed.

Lemma same_command_twice_witness :
  actions (events_of ((loop ;; loop) (mkWorld true ["a"%char; "a"%char]))) =
    [EvDelay 10; EvMove (-50) 0; EvDelay 50; EvMove (-50) 0; EvDelay 50;
     EvPrintln "←"] ++
    [EvDelay 10; EvMove (-50) 0; EvDelay 50; EvMove (-50) 0; EvDelay 50;
     EvPrintln "←"] /\
  world_of ((loop ;; loop) (mkWorld true ["a"%char; "a"%char])) =
    mkWorld true [].
Proof.
  pose proof (same_command_twice (mkWorld true ["a"%char; "a"%char]) "a" []
                eq_refl eq_refl) as H.
  split.
  - exact (proj1 (proj2 (proj2 (proj2 (proj2 H))))).
  - exact (proj2 (proj2 (proj2 (proj2 (proj2 H))))).
Defined.

(** ** Motion bursts *)

(** C8: in every run of the sketch, whatever the connection flag does
    and whatever bytes arrive, every move report ever sent carries one
    of the four documented delta pairs, so both of its arguments lie
    between -127 and 127. *)
Theorem every_move_in_range (sched : list (bool * list ascii)) :
  Forall move_in_range (sketch_trace sched).
Proof.
  unfold sketch_trace.
  destruct (setup power_on) as [[u w0] t0] eqn:Es.
  apply Forall_app. split.
  - vm_compute in Es. injection Es as _ _ <-. repeat constructor.
  - apply run_moves_in_range.
Qed.

(** C9: in the burst of a directional command the pause follows each of
    the two move reports, the second as well as the first, so the
    diagnostic line comes only after a second pause of the documented
    length (100 ms for 'w' and 's', 50 ms for 'a', 40 ms for 'd'). *)
Theorem burst_trailing_pause
    (c : ascii) (dx dy pause : Z) (line : string)
    (w : world) (rest : list ascii) :
  documented_action c = Some (Burst dx dy pause line) ->
  ble_connected w = true ->
  serial_rx w = c :: rest ->
  events_of (loop w) =
    [EvDelay 10; EvIsConnected true;
     EvAvailable (Z.of_nat (S (List.length rest)));
     EvRead (Z.of_N (N_of_ascii c))] ++
    [EvMove dx dy; EvDelay pause; EvMove dx dy; EvDelay pause;
     EvPrintln line].
Proof.
  intros Hdoc Hc Hrx. rewrite (loop_dispatch w c rest Hc Hrx).
  pose proof (documented_recognized c _ Hdoc) as Hin. simpl in Hin.
  repeat (destruct Hin as [<- | Hin];
          [ first [ discriminate Hdoc
                  | injection Hdoc as <- <- <- <-; reflexivity ] | ]).
  contradiction.
Qed.

Lemma burst_trailing_pause_witness :
  documented_action "a" = Some (Burst (-50) 0 50 "←") /\
  events_of (loop (mkWorld true ["a"%char])) =
    [EvDelay 10; EvIsConnected true; EvAvailable 1; EvRead 97] ++
    [EvMove (-50) 0; EvDelay 50; EvMove (-50) 0; EvDelay 50; EvPrintln "←"].
Proof.
  split.
  - reflexivity.
  - exact (burst_trailing_pause "a" (-50) 0 50 "←" (mkWorld true ["a"%char]) []
             eq_refl eq_refl eq_refl).
Defined.

(** ** Determinism *)

(** C10: the sleeps, HID reports and diagnostic text of an iteration
    are determined by the connection flag and by the character at the
    head of the serial queue (or its absence); two iterations that agree
    on these two produce the same actions, whatever else differs. *)
Theorem iteration_deterministic (w1 w2 : world) :
  ble_connected w1 = ble_connected w2 ->
  hd_error (serial_rx w1) = hd_error (serial_rx w2) ->
  actions (events_of (loop w1)) = actions (events_of (loop w2)).
Proof.
  intros Hconn Hhd.
  destruct (ble_connected w2) eqn:Hc2.
  - destruct (serial_rx w1) as [| c1 rest1] eqn:Hrx1;
      destruct (serial_rx w2) as [| c2 rest2] eqn:Hrx2;
      try discriminate Hhd.
    + rewrite (loop_idle w1 Hconn Hrx1), (loop_idle w2 Hc2 Hrx2). reflexivity.
    + injection Hhd as ->.
      rewrite (loop_dispatch w1 c2 rest1 Hconn Hrx1).
      rewrite (loop_dispatch w2 c2 rest2 Hc2 Hrx2).
      unfold events_of, actions. cbn [snd]. rewrite !filter_app. reflexivity.
  - rewrite (loop_disconnected w1 Hconn), (loop_disconnected w2 Hc2).
    reflexivity.
Qed.

Lemma iteration_deterministic_witness :
  actions (events_of (loop (mkWorld true ["m"%char; "w"%char; "z"%char]))) =
  actions (events_of (loop (mkWorld true ["m"%char]))).
Proof.
  exact (iteration_deterministic (mkWorld true ["m"%char; "w"%char; "z"%char])
           (mkWorld true ["m"%char]) eq_refl eq_refl).
Defined.

(** * Whole runs *)

(** ** One iteration, in closed form *)

Lemma loop_cases (w : world) :
  (ble_connected w = false /\
   loop w = (tt, w, [EvDelay 10; EvIsConnected false; EvDelay 500])) \/
  (ble_connected w = true /\ serial_rx w = [] /\
   loop w = (tt, w, [EvDelay 10; EvIsConnected true; EvAvailable 0])) \/
  (exists (c : ascii) (rest : list ascii),
      ble_connected w = true /\ serial_rx w = c :: rest /\
      loop w =
      (tt, mkWorld true rest,
       [EvDelay 10; EvIsConnected true;
        EvAvailable (Z.of_nat (S (List.length rest))); EvRead (code c)] ++
       dispatch_events c)).
Proof.
  destruct (ble_connected w) eqn:Hc.
  - destruct (serial_rx w) as [| c rest] eqn:Hrx.
    + right; left. repeat split. exact (loop_idle w Hc Hrx).
    + right; right. exists c, rest. repeat split.
      exact (loop_dispatch w c rest Hc Hrx).
  - left. split; [reflexivity | exact (loop_disconnected w Hc)].
Qed.

Lemma run_cons (conn : bool) (bytes : list ascii)
    (sched : list (bool * list ascii)) (w : world) :
  run ((conn, bytes) :: sched) w =
  (fst (run sched (world_of (loop (mkWorld conn (serial_rx w ++ bytes))))),
   events_of (loop (mkWorld conn (serial_rx w ++ bytes))) ++
   snd (run sched (world_of (loop (mkWorld conn (serial_rx w ++ bytes)))))).
Proof.
  cbn [run]. unfold world_of, events_of.
  destruct (loop (mkWorld conn (serial_rx w ++ bytes))) as [[u w1] t1].
  cbn [fst snd]. destruct (run sched w1) as [w2 t2]. reflexivity.
Qed.

Lemma dispatch_actions (c : ascii) :
  actions (dispatch_events c) = dispatch_events c.
Proof. each_ascii c; reflexivity. Qed.

Lemma reads_app (t u : list event) : reads (t ++ u) = reads t ++ reads u.
Proof.
  induction t as [| e t IH]; [reflexivity |].
  destruct e; cbn [reads app]; rewrite ?IH; reflexivity.
Qed.

Lemma loop_reads (w : world) :
  reads (events_of (loop w)) =
  if ble_connected w then map code (firstn 1 (serial_rx w)) else [].
Proof.
  destruct (loop_cases w) as [[Hc E] | [(Hc & Hrx & E) | (c & rest & Hc & Hrx & E)]];
    rewrite E, Hc; try rewrite Hrx; try reflexivity.
  unfold events_of. cbn [snd]. rewrite reads_app.
  rewrite (proj2 (dispatch_no_read c)). reflexivity.
Qed.

Lemma loop_world (w : world) :
  world_of (loop w) =
  mkWorld (ble_connected w)
          (if ble_connected w then skipn 1 (serial_rx w) else serial_rx w).
Proof.
  destruct (loop_cases w) as [[Hc E] | [(Hc & Hrx & E) | (c & rest & Hc & Hrx & E)]];
    rewrite E, Hc; try rewrite Hrx; unfold world_of; cbn [fst snd skipn].
  - destruct w as [conn rx]. cbn in Hc. subst. reflexivity.
  - destruct w as [conn rx]. cbn in Hc, Hrx. subst. reflexivity.
  - reflexivity.
Qed.

Lemma code_range (c : ascii) : 0 <= code c <= 255.
Proof.
  unfold code. pose proof (N_ascii_bounded c). lia.
Qed.

Lemma dispatch_no_init (c : ascii) : filter is_init (dispatch_events c) = [].
Proof. each_ascii c; reflexivity. Qed.

Lemma loop_no_init (w : world) : filter is_init (events_of (loop w)) = [].
Proof.
  destruct (loop_cases w) as [[Hc E] | [(Hc & Hrx & E) | (c & rest & Hc & Hrx & E)]];
    rewrite E; try reflexivity.
  unfold events_of. cbn [snd]. rewrite filter_app, dispatch_no_init. reflexivity.
Qed.

Lemma run_no_init (sched : list (bool * list ascii)) :
  forall w, filter is_init (snd (run sched w)) = [].
Proof.
  induction sched as [| [conn bytes] sched' IH]; intros w; [reflexivity |].
  rewrite run_cons. cbn [snd]. rewrite filter_app, loop_no_init, IH. reflexivity.
Qed.

Lemma loop_guarded (w : world) (b : bool) (u : list event) :
  reports_guarded b (events_of (loop w) ++ u) =
  reports_guarded (ble_connected w) u.
Proof.
  destruct (loop_cases w) as [[Hc E] | [(Hc & Hrx & E) | (c & rest & Hc & Hrx & E)]];
    rewrite E, Hc; try reflexivity.
  unfold events_of. cbn [snd]. rewrite <- app_assoc.
  cbn [app reports_guarded].
  each_ascii c; reflexivity.
Qed.

Lemma run_guarded (sched : list (bool * list ascii)) :
  forall w b, reports_guarded b (snd (run sched w)) = true.
Proof.
  induction sched as [| [conn bytes] sched' IH]; intros w b; [reflexivity |].
  rewrite run_cons. cbn [snd]. rewrite loop_guarded. apply IH.
Qed.

Lemma loop_delay_bounds (w : world) :
  if ble_connected w
  then 10 <= total_delay (events_of (loop w)) <= 210
  else total_delay (events_of (loop w)) = 510.
Proof.
  destruct (loop_cases w) as [[Hc E] | [(Hc & Hrx & E) | (c & rest & Hc & Hrx & E)]];
    rewrite Hc.
  - rewrite E. reflexivity.
  - rewrite E. cbn. lia.
  - pose proof (loop_connected_delay w Hc) as Hup. split; [| exact Hup].
    rewrite E. unfold events_of. cbn [snd]. rewrite total_delay_app.
    assert (0 <= total_delay (dispatch_events c))
      by (each_ascii c; vm_compute; discriminate).
    cbn [total_delay]. lia.
Qed.

(** ** Start-up *)

(** X1: every run starts with [Serial.begin(115200)], [bleMouse.begin()]
    and the banner line, in this order, and neither of the two [begin]
    calls is ever made again, however long the sketch runs. *)
Theorem initialised_once (sched : list (bool * list ascii)) :
  firstn 3 (sketch_trace sched) =
    [EvSerialBegin 115200; EvBleBegin; EvPrintln banner] /\
  filter is_init (sketch_trace sched) = [EvSerialBegin 115200; EvBleBegin].
Proof.
  unfold sketch_trace.
  change (setup power_on)
    with (tt, power_on, [EvSerialBegin 115200; EvBleBegin; EvPrintln banner]).
  split; [reflexivity |].
  rewrite filter_app, run_no_init. reflexivity.
Qed.

(** ** Serial input over a run *)

(** X2: no byte is lost, duplicated or reordered by the sketch.  At any
    point of a run, the values returned by [Serial.read()] so far,
    followed by the bytes still waiting, are exactly the bytes that were
    waiting at the start followed by those that arrived, in order. *)
Theorem bytes_conserved (sched : list (bool * list ascii)) (w : world) :
  reads (snd (run sched w)) ++ map code (serial_rx (fst (run sched w))) =
  map code (serial_rx w ++ arrived sched).
Proof.
  revert w. induction sched as [| [conn bytes] sched' IH]; intros w.
  - cbn. rewrite app_nil_r. reflexivity.
  - rewrite run_cons. cbn [fst snd].
    rewrite reads_app, <- app_assoc, IH, loop_world, loop_reads.
    cbn [ble_connected serial_rx].
    unfold arrived. cbn [map snd List.concat]. fold (arrived sched').
    rewrite (app_assoc (serial_rx w) bytes).
    destruct conn.
    + rewrite <- map_app, app_assoc, firstn_skipn. reflexivity.
    + reflexivity.
Qed.

(** X3: [Serial.read()] is never called on an empty queue: in every run
    each value it returns is a byte, between 0 and 255, never the -1 of
    an empty queue. *)
Theorem read_never_fails (sched : list (bool * list ascii)) (w : world) :
  Forall (fun r => 0 <= r <= 255) (reads (snd (run sched w))).
Proof.
  revert w. induction sched as [| [conn bytes] sched' IH]; intros w.
  - constructor.
  - rewrite run_cons. cbn [snd]. rewrite reads_app. apply Forall_app. split.
    + rewrite loop_reads. cbn [ble_connected serial_rx].
      destruct conn; [| constructor].
      destruct (serial_rx w ++ bytes) as [| c l]; cbn [firstn map].
      * constructor.
      * constructor; [apply code_range | constructor].
    + apply IH.
Qed.

(** X4: a run consumes at most one byte for each [loop()] call that
    finds the peer connected, and none in the other calls. *)
Theorem one_byte_per_connected_slot
    (sched : list (bool * list ascii)) (w : world) :
  (List.length (reads (snd (run sched w))) <= connected_slots sched)%nat.
Proof.
  revert w. induction sched as [| [conn bytes] sched' IH]; intros w.
  - cbn. lia.
  - rewrite run_cons. cbn [snd]. rewrite reads_app, length_app, loop_reads.
    cbn [ble_connected serial_rx].
    specialize (IH (world_of (loop (mkWorld conn (serial_rx w ++ bytes))))).
    unfold connected_slots in *. cbn [filter fst].
    destruct conn; cbn [List.length].
    + rewrite length_map.
      pose proof (firstn_le_length 1 (serial_rx w ++ bytes)).
      assert (List.length (firstn 1 (serial_rx w ++ bytes)) <= 1)%nat
        by (rewrite length_firstn; lia).
      lia.
    + lia.
Qed.

(** ** HID reports over a run *)

(** X5: in every run, each HID report (move or click) is sent at a
    moment when the latest answer of [isConnected()] was true; before
    the first such answer nothing is sent. *)
Theorem reports_only_when_connected (sched : list (bool * list ascii)) :
  reports_guarded false (sketch_trace sched) = true.
Proof.
  unfold sketch_trace.
  change (setup power_on)
    with (tt, power_on, [EvSerialBegin 115200; EvBleBegin; EvPrintln banner]).
  cbn [app reports_guarded]. apply run_guarded.
Qed.

(** ** Timing of a run *)

(** X6: the time a run spends in [delay] is 510 ms for each call of
    [loop()] that finds the peer disconnected plus between 10 and 210 ms
    for each call that finds it connected. *)
Theorem run_duration (sched : list (bool * list ascii)) (w : world) :
  510 * Z.of_nat (disconnected_slots sched) +
  10 * Z.of_nat (connected_slots sched)
  <= total_delay (snd (run sched w))
  <= 510 * Z.of_nat (disconnected_slots sched) +
     210 * Z.of_nat (connected_slots sched).
Proof.
  revert w. induction sched as [| [conn bytes] sched' IH]; intros w.
  - cbn. lia.
  - rewrite run_cons. cbn [snd]. rewrite total_delay_app.
    specialize (IH (world_of (loop (mkWorld conn (serial_rx w ++ bytes))))).
    pose proof (loop_delay_bounds (mkWorld conn (serial_rx w ++ bytes))) as Hl.
    cbn [ble_connected] in Hl.
    unfold connected_slots, disconnected_slots in *. cbn [filter fst negb].
    destruct conn; cbn [negb List.length]; lia.
Qed.

(** ** What a run does with the bytes it reads *)



Lemma net_dx_app (t u : list event) : net_dx (t ++ u) = net_dx t + net_dx u.
Proof.
  induction t as [| e t IH]; [reflexivity |].
  destruct e; cbn [net_dx app]; rewrite ?IH; lia.
Qed.

Lemma net_dy_app (t u : list event) : net_dy (t ++ u) = net_dy t + net_dy u.
Proof.
  induction t as [| e t IH]; [reflexivity |].
  destruct e; cbn [net_dy app]; rewrite ?IH; lia.
Qed.

Lemma count_read_app (r : Z) (t u : list event) :
  count_read r (t ++ u) = count_read r t + count_read r u.
Proof.
  induction t as [| e t IH]; [reflexivity |].
  destruct e; cbn [count_read app]; rewrite ?IH; lia.
Qed.

Ltac loop_by_cases w c rest E :=
  let Hc := fresh "Hc" in
  let Hrx := fresh "Hrx" in
  destruct (loop_cases w)
    as [[Hc E] | [(Hc & Hrx & E) | (c & rest & Hc & Hrx & E)]];
  rewrite E; clear E; [reflexivity | reflexivity | ];
  unfold events_of; cbn [snd].



Lemma loop_reports (w : world) :
  hid_reports (events_of (loop w)) =
  flat_map (fun r => reports_for (char_of_int r)) (reads (events_of (loop w))).
Proof.
  loop_by_cases w c rest E.
  rewrite reads_app, (proj2 (dispatch_no_read c)).
  cbn [reads app flat_map]. unfold code. rewrite char_of_int_code.
  each_ascii c; reflexivity.
Qed.

Lemma loop_net_dx (w : world) :
  net_dx (events_of (loop w)) =
  100 * (count_read (code "d") (events_of (loop w)) -
         count_read (code "a") (events_of (loop w))).
Proof.
  loop_by_cases w c rest E. each_ascii c; reflexivity.
Qed.

Lemma loop_net_dy (w : world) :
  net_dy (events_of (loop w)) =
  254 * (count_read (code "s") (events_of (loop w)) -
         count_read (code "w") (events_of (loop w))).
Proof.
  loop_by_cases w c rest E. each_ascii c; reflexivity.
Qed.



(** X8: the HID reports of a run are, in order, those the dispatch table
    assigns to each byte read: two moves for a direction, one click for
    a button, nothing for any other byte.  Nothing else is ever sent. *)
Theorem reports_follow_bytes (sched : list (bool * list ascii)) (w : world) :
  hid_reports (snd (run sched w)) =
  flat_map (fun r => reports_for (char_of_int r)) (reads (snd (run sched w))).
Proof.
  revert w. induction sched as [| [conn bytes] sched' IH]; intros w;
    [reflexivity |].
  rewrite run_cons. cbn [snd]. unfold hid_reports in *.
  rewrite filter_app, reads_app, flat_map_app, IH.
  f_equal. apply loop_reports.
Qed.

(** X9: over a whole run the pointer is asked to move, in total, 100
    units right for each 'd' read minus 100 for each 'a', and 254 units
    down for each 's' minus 254 for each 'w'; in particular a 'w' undoes
    an 's' and an 'a' undoes a 'd', and no other byte moves the pointer. *)
Theorem net_displacement (sched : list (bool * list ascii)) (w : world) :
  net_dx (snd (run sched w)) =
    100 * (count_read (code "d") (snd (run sched w)) -
           count_read (code "a") (snd (run sched w))) /\
  net_dy (snd (run sched w)) =
    254 * (count_read (code "s") (snd (run sched w)) -
           count_read (code "w") (snd (run sched w))).
Proof.
  revert w. induction sched as [| [conn bytes] sched' IH]; intros w;
    [split; reflexivity |].
  rewrite run_cons. cbn [snd].
  destruct (IH (world_of (loop (mkWorld conn (serial_rx w ++ bytes)))))
    as [IHx IHy].
  rewrite net_dx_app, net_dy_app, !count_read_app, IHx, IHy.
  rewrite loop_net_dx, loop_net_dy. split; lia.
Qed.

(** ** Steady connection and backlog *)

Lemma run_app (s1 s2 : list (bool * list ascii)) :
  forall w,
    run (s1 ++ s2) w =
    (fst (run s2 (fst (run s1 w))),
     snd (run s1 w) ++ snd (run s2 (fst (run s1 w)))).
Proof.
  induction s1 as [| [conn bytes] s1 IH]; intros w.
  - cbn [app run fst snd]. destruct (run s2 w). reflexivity.
  - cbn [app]. rewrite !run_cons, IH. cbn [fst snd].
    rewrite app_assoc. reflexivity.
Qed.

Lemma run_steady_reads (n : nat) :
  forall w,
    reads (snd (run (repeat (true, []) n) w)) =
      map code (firstn n (serial_rx w)) /\
    serial_rx (fst (run (repeat (true, []) n) w)) = skipn n (serial_rx w).
Proof.
  induction n as [| n IH]; intros w; [split; reflexivity |].
  cbn [repeat]. rewrite run_cons. cbn [fst snd].
  rewrite app_nil_r, reads_app, loop_reads, loop_world.
  cbn [ble_connected serial_rx].
  destruct (IH (mkWorld true (skipn 1 (serial_rx w)))) as [IHr IHw].
  rewrite IHr, IHw. cbn [serial_rx].
  destruct (serial_rx w) as [| c rest].
  - cbn [firstn skipn map app]. rewrite firstn_nil, skipn_nil. split; reflexivity.
  - cbn [firstn skipn map app]. split; reflexivity.
Qed.

Lemma run_disconnected (off : list (bool * list ascii)) :
  Forall (fun s => fst s = false) off ->
  forall w,
    reads (snd (run off w)) = [] /\
    serial_rx (fst (run off w)) = serial_rx w ++ arrived off.
Proof.
  induction 1 as [| [conn bytes] off Hhd Htl IH]; intros w.
  - cbn. rewrite app_nil_r. split; reflexivity.
  - cbn [fst] in Hhd. subst conn.
    rewrite run_cons. cbn [fst snd].
    rewrite reads_app, loop_reads, loop_world.
    cbn [ble_connected serial_rx].
    destruct (IH (mkWorld false (serial_rx w ++ bytes))) as [IHr IHw].
    rewrite IHr, IHw. cbn [serial_rx].
    unfold arrived. cbn [map snd List.concat].
    rewrite app_assoc. split; reflexivity.
Qed.

(** X10: while the peer stays connected and nothing new arrives, [n]
    calls of [loop()] perform, in order, the bursts of the first [n]
    waiting bytes, each after the 10 ms poll delay, and once the queue is
    empty only the poll delay is left; the bytes beyond the first [n]
    stay in the queue. *)
Theorem steady_run (n : nat) (w : world) :
  actions (snd (run (repeat (true, []) n) w)) =
    flat_map (fun c => EvDelay 10 :: dispatch_events c)
             (firstn n (serial_rx w)) ++
    repeat (EvDelay 10) (n - List.length (serial_rx w)) /\
  serial_rx (fst (run (repeat (true, []) n) w)) = skipn n (serial_rx w).
Proof.
  split; [| apply run_steady_reads].
  revert w. induction n as [| n IH]; intros w; [reflexivity |].
  cbn [repeat]. rewrite run_cons. cbn [snd]. rewrite app_nil_r.
  unfold actions in *. rewrite filter_app.
  destruct (serial_rx w) as [| c rest] eqn:Hrx.
  - rewrite (loop_idle (mkWorld true []) eq_refl eq_refl).
    unfold world_of, events_of. cbn [fst snd].
    rewrite IH. cbn [serial_rx List.length].
    rewrite !firstn_nil, !Nat.sub_0_r. reflexivity.
  - rewrite (loop_dispatch (mkWorld true (c :: rest)) c rest eq_refl eq_refl).
    unfold world_of, events_of. cbn [fst snd].
    rewrite IH, filter_app. fold (actions (dispatch_events c)).
    rewrite dispatch_actions.
    cbn [serial_rx List.length firstn flat_map Nat.sub filter is_action app].
    rewrite <- !app_assoc. reflexivity.
Qed.

(** X11: bytes that arrive while the peer is disconnected are not thrown
    away by the sketch: it reads nothing during that time, and once the
    peer is connected they are read, oldest first, one per call of
    [loop()], as if they had just arrived.  (The receive queue of the
    model has no capacity limit.) *)
Theorem backlog_kept
    (off : list (bool * list ascii)) (n : nat) (w : world) :
  Forall (fun s => fst s = false) off ->
  reads (snd (run off w)) = [] /\
  reads (snd (run (off ++ repeat (true, []) n) w)) =
    map code (firstn n (serial_rx w ++ arrived off)) /\
  serial_rx (fst (run (off ++ repeat (true, []) n) w)) =
    skipn n (serial_rx w ++ arrived off).
Proof.
  intros Hoff. destruct (run_disconnected off Hoff w) as [Hr Hw].
  destruct (run_steady_reads n (fst (run off w))) as [Sr Sw].
  rewrite run_app. cbn [fst snd].
  rewrite reads_app, Hr, Sr, Sw, Hw. repeat split; reflexivity.
Qed.

Lemma backlog_kept_witness :
  Forall (fun s : bool * list ascii => fst s = false)
         [(false, ["w"%char]); (false, ["c"%char; "z"%char])] /\
  reads (snd (run ([(false, ["w"%char]); (false, ["c"%char; "z"%char])] ++
                   repeat (true, []) 2) power_on)) =
    map code (firstn 2 (serial_rx power_on ++
                        arrived [(false, ["w"%char]);
                                 (false, ["c"%char; "z"%char])])).
Proof.
  assert (Hoff : Forall (fun s : bool * list ascii => fst s = false)
                        [(false, ["w"%char]); (false, ["c"%char; "z"%char])]).
  { repeat constructor. }
  split.
  - exact Hoff.
  - exact (proj1 (proj2 (backlog_kept _ 2 power_on Hoff))).
Defined.

(** ** Polling *)

Lemma loop_queries (w : world) :
  List.length (filter is_connection_query (events_of (loop w))) = 1%nat /\
  List.length (filter is_available_query (events_of (loop w))) =
    (if ble_connected w then 1%nat else 0%nat).
Proof.
  destruct (loop_cases w) as [[Hc E] | [(Hc & Hrx & E) | (c & rest & Hc & Hrx & E)]];
    rewrite E, Hc; clear E; [split; reflexivity | split; reflexivity | ].
  unfold events_of. cbn [snd]. rewrite !filter_app, !length_app.
  assert (Hq : filter is_connection_query (dispatch_events c) = [] /\
               filter is_available_query (dispatch_events c) = [])
    by (each_ascii c; split; reflexivity).
  destruct Hq as [-> ->]. split; reflexivity.
Qed.

(** X12: over a run, [isConnected()] is called exactly as many times as
    [loop()] is, and [Serial.available()] exactly as many times as
    [loop()] found the peer connected: one look at the connection per
    iteration, none added by a burst, and no poll of the serial queue
    while disconnected. *)
Theorem one_poll_per_iteration (sched : list (bool * list ascii)) (w : world) :
  List.length (filter is_connection_query (snd (run sched w))) =
    List.length sched /\
  List.length (filter is_available_query (snd (run sched w))) =
    connected_slots sched.
Proof.
  revert w. induction sched as [| [conn bytes] sched' IH]; intros w;
    [split; reflexivity |].
  rewrite run_cons. cbn [snd].
  destruct (IH (world_of (loop (mkWorld conn (serial_rx w ++ bytes)))))
    as [IHc IHa].
  destruct (loop_queries (mkWorld conn (serial_rx w ++ bytes))) as [Lc La].
  cbn [ble_connected] in La.
  rewrite !filter_app, !length_app, IHc, IHa, Lc, La.
  unfold connected_slots. cbn [filter fst List.length].
  destruct conn; split; reflexivity.
Qed.
